(** * triangula.util: the interval gate and the interface-address helper

    A shallow embedding of [src/python/triangula/util.py].

    - [IntervalCheck] (the spec's IntervalGate) with [should_run] (the spec's
      [poll()]) and [sleep] (the spec's [wait_until_ready()]);
    - [get_ip_address].

    The two methods talk to their environment through [time()] and
    [time.sleep()].  Both are effects of a small state-and-exception monad:
    the world holds the number of clock readings taken so far and the list
    of durations handed to the sleep primitive; the clock itself is an
    arbitrary function from the index of a reading to its value, so nothing
    is assumed about how much time passes between two readings or during a
    sleep.

    The source is duck-typed in its numbers: it only uses [-], [+] and [>].
    The methods are therefore written once over a type with these three
    operations ([Num]); everything that only depends on which branch is
    taken is proved for every such type.  Two instances are given: exact
    rationals ([Q]), on which the statements that need arithmetic laws are
    proved, and IEEE binary64 ([float], the type of Python's floats and of
    the values [time()] returns), on which the methods can be run as the
    program runs them, rounding included. *)

From Stdlib Require Import PrimFloat.
From Stdlib Require Import QArith Qabs Lqa Lia Bool List String Ascii.
From Stdlib Require Import NArith ZArith Strings.Byte DecimalString.
From Stdlib Require Import Sorting.Sorted.
Import ListNotations.

Set Implicit Arguments.

(** ** Exceptions and the effect monad *)

(** The exceptions the modelled code can meet. *)
Inductive exn : Type :=
| TypeError      (* arithmetic on [None] *)
| ValueError     (* [time.sleep] of a negative duration *)
| IOError        (* a failing [ioctl] *)
| socket_error.  (* a failing [socket()], a packed address of the wrong length *)

Inductive Res (A : Type) : Type :=
| Ok (a : A)
| Raise (e : exn).
Arguments Ok {A} a.
Arguments Raise {A} e.

(** What the methods can observe and change outside the object: how many
    times the clock has been read, and every duration that was passed to
    [time.sleep], most recent first. *)
Record World (T : Type) : Type := mkWorld {
  ticks : nat;
  slept : list T
}.

(** The world after a call that read the clock once and did not sleep. *)
Definition ticked {T} (w : World T) : World T :=
  mkWorld (S (ticks w)) (slept w).

Definition M (T A : Type) : Type := World T -> Res A * World T.

Definition ret {T A} (a : A) : M T A := fun w => (Ok a, w).

Definition raise {T A} (e : exn) : M T A := fun w => (Raise e, w).

Definition bind {T A B} (c : M T A) (k : A -> M T B) : M T B :=
  fun w =>
    match c w with
    | (Ok a, w') => k a w'
    | (Raise e, w') => (Raise e, w')
    end.

Declare Scope py_scope.
Delimit Scope py_scope with py.
Notation "x <- c ;; k" := (bind c (fun x => k))
  (at level 100, c at next level, right associativity) : py_scope.
Notation "c ;;; k" := (bind c (fun _ => k))
  (at level 100, right associativity) : py_scope.

(** ** Numbers *)

(** The operations the source applies to timestamps and durations. [zero]
    is only used by the sleep primitive to recognise a negative duration. *)
Class Num (T : Type) : Type := {
  zero : T;
  add : T -> T -> T;
  sub : T -> T -> T;
  gt : T -> T -> bool
}.

Definition Qgt_bool (a b : Q) : bool := negb (Qle_bool a b).

#[export] Instance Num_Q : Num Q := {|
  zero := 0%Q;
  add := Qplus;
  sub := Qminus;
  gt := Qgt_bool
|}.


(** ** The environment primitives *)

Section Primitives.
Context {T : Type} {NT : Num T}.

(** The clock: [clock k] is the value of the [k]-th call of [time()]. *)
Variable clock : nat -> T.

Definition time : M T T :=
  fun w => (Ok (clock (ticks w)), mkWorld (S (ticks w)) (slept w)).

(** [time.sleep(d)]: refuses a negative duration, otherwise suspends the
    caller; the suspension is recorded in the world. *)
Definition time_sleep (d : T) : M T unit :=
  fun w =>
    if gt zero d then (Raise ValueError, w)
    else (Ok tt, mkWorld (ticks w) (d :: slept w)).

(** [a - b] where [b] may be [None]. *)
Definition sub_opt (a : T) (b : option T) : M T T :=
  match b with
  | Some b' => ret (sub a b')
  | None => raise TypeError
  end.
End Primitives.

(** ** class IntervalCheck *)

Module IntervalCheck.
Section Methods.
Context {T : Type} {NT : Num T}.
Variable clock : nat -> T.

Record t : Type := mk {
  interval : T;
  last_time : option T
}.

Definition set_last_time (self : t) (v : T) : t :=
  mk (interval self) (Some v).

Definition is_None (o : option T) : bool :=
  match o with None => true | Some _ => false end.

(** [__init__] *)
Definition __init__ (interval : T) : t := mk interval None.

(** [should_run]: the Python [or] is short-circuit, so the subtraction is
    only evaluated when [last_time] is set. *)
Definition should_run (self : t) : M T (bool * t) :=
  (now <- time clock ;;
   c <- (if is_None (last_time self) then ret true
         else (d <- sub_opt now (last_time self) ;;
               ret (gt d (interval self)))) ;;
   if c then ret (true, set_last_time self now)
   else ret (false, self))%py.

(** [sleep] *)
Definition sleep (self : t) : M T t :=
  (now <- time clock ;;
   if is_None (last_time self) then ret (set_last_time self now)
   else
     d <- sub_opt now (last_time self) ;;
     if gt d (interval self) then ret self
     else
       d' <- sub_opt now (last_time self) ;;
       let remaining_interval := sub (interval self) d' in
       time_sleep remaining_interval ;;;
       ret (set_last_time self (add now remaining_interval)))%py.
End Methods.
Arguments t T : clear implicits.
End IntervalCheck.

(** ** Sequences of calls on one object *)

(** The two public operations, as a caller issues them. *)
Inductive call : Type :=
| Poll   (* [should_run()] *)
| Wait.  (* [sleep()] *)

Section Driver.
Context {T : Type} {NT : Num T}.
Variable clock : nat -> T.

(** One call; the boolean of [should_run] is dropped, the object after
    the call is kept. *)
Definition step (c : call) (self : IntervalCheck.t T)
  : M T (IntervalCheck.t T) :=
  match c with
  | Poll => (r <- IntervalCheck.should_run clock self ;; ret (snd r))%py
  | Wait => IntervalCheck.sleep clock self
  end.

(** A sequence of calls on the same object; the result lists the object
    after each call, in order. *)
Fixpoint run (cs : list call) (self : IntervalCheck.t T)
  : M T (list (IntervalCheck.t T)) :=
  match cs with
  | [] => ret []
  | c :: cs' =>
      (self' <- step c self ;;
       rest <- run cs' self' ;;
       ret (self' :: rest))%py
  end.
End Driver.

(** ** get_ip_address *)

Definition bindR {A B} (r : Res A) (k : A -> Res B) : Res B :=
  match r with
  | Ok a => k a
  | Raise e => Raise e
  end.

Declare Scope res_scope.
Delimit Scope res_scope with res.
Notation "x <- c ;; k" := (bindR c (fun x => k))
  (at level 100, c at next level, right associativity) : res_scope.

(** [try: body except: handler] with a bare [except], which catches every
    exception. *)
Definition try_except {A} (body : Res A) (handler : Res A) : Res A :=
  match body with
  | Ok a => Ok a
  | Raise _ => handler
  end.

(** The system calls behind [socket.socket] and [fcntl.ioctl]: each either
    returns or raises. *)
Record OS : Type := mkOS {
  os_socket : Res Z;                                  (* the new descriptor *)
  os_ioctl : Z -> Z -> list byte -> Res (list byte)   (* fd, request, argument *)
}.

(** [l[i:j]] for [0 <= i <= j]. *)
Definition slice {A} (i j : nat) (l : list A) : list A :=
  firstn (j - i) (skipn i l).

(** [struct.pack('256s', s)]: [s] cut to 256 bytes and padded with NUL. *)
Definition pack_256s (s : list byte) : list byte :=
  let s' := firstn 256 s in
  s' ++ repeat x00 (256 - List.length s').

Definition decimal (b : byte) : string :=
  NilZero.string_of_uint (N.to_uint (Byte.to_N b)).

(** [socket.inet_ntoa]: four bytes to dotted decimal; any other length is
    an error. *)
Definition inet_ntoa (packed : list byte) : Res string :=
  match packed with
  | [a; b; c; d] =>
      Ok (decimal a ++ "." ++ decimal b ++ "." ++ decimal c ++ "." ++ decimal d)%string
  | _ => Raise socket_error
  end.

Definition SIOCGIFADDR : Z := 0x8915.

Definition placeholder : string := "--.--.--".

(** The body of the [try]. *)
Definition lookup (os : OS) (ifname : string) : Res string :=
  (s <- os_socket os ;;
   reply <- os_ioctl os s SIOCGIFADDR
              (pack_256s (firstn 15 (list_byte_of_string ifname))) ;;
   inet_ntoa (slice 20 24 reply))%res.

Definition get_ip_address (os : OS) (ifname : string) : Res string :=
  try_except (lookup os ifname) (Ok placeholder).

(** ** The spec's scenarios, run on the embedding *)

Definition clock_of (readings : list Q) : nat -> Q :=
  fun k => nth k readings 0%Q.

Definition world0 : World Q := mkWorld 0 [].

(** The same for readings and durations that are doubles.  A decimal
    literal stands for the nearest double, as it does in Python. *)
#[local] Set Warnings "-inexact-float".



(** A clock that advances by one second from one reading to the next. *)
Definition seconds_clock : nat -> Q := fun k => inject_Z (Z.of_nat k).

(** The answers of [should_run] along a sequence of polls on one object. *)
Fixpoint polls (clock : nat -> Q) (n : nat) (self : IntervalCheck.t Q)
  : M Q (list bool) :=
  match n with
  | O => ret []
  | S n' =>
      (r <- IntervalCheck.should_run clock self ;;
       rest <- polls clock n' (snd r) ;;
       ret (fst r :: rest))%py
  end.

Definition last_times (r : Res (list (IntervalCheck.t Q)) * World Q)
  : list (option Q) :=
  match fst r with
  | Ok l => map (@IntervalCheck.last_time Q) l
  | Raise _ => []
  end.

(** The order on [last_time] values: absent is below everything, and a
    timestamp that is set never becomes absent again. *)
Definition last_time_le (o o' : option Q) : Prop :=
  match o, o' with
  | None, _ => True
  | Some a, Some b => (a <= b)%Q
  | Some _, None => False
  end.

(** Every adjacent pair of a list is related by [R]. *)
Fixpoint chain {A} (R : A -> A -> Prop) (l : list A) : Prop :=
  match l with
  | a :: (b :: _) as l' => R a b /\ chain R l'
  | _ => True
  end.

(** A system in which the socket is created and every [ioctl] fills in
    the address 192.168.1.5. *)
Definition os_example : OS :=
  mkOS (Ok 3%Z)
       (fun _ _ arg =>
          Ok (firstn 20 arg ++ [xc0; xa8; x01; x05] ++ skipn 24 arg)%list).

(** ** Decimal numerals, to say what the text of an address is *)

(** The value of a decimal digit. *)
Definition digit_value (c : ascii) : option N :=
  let n := N_of_ascii c in
  if ((48 <=? n) && (n <=? 57))%N then Some (n - 48)%N else None.

Fixpoint numeral_value_from (acc : N) (s : string) : option N :=
  match s with
  | EmptyString => Some acc
  | String c s' =>
      match digit_value c with
      | Some d => numeral_value_from (acc * 10 + d)%N s'
      | None => None
      end
  end.

(** The number a non-empty string of decimal digits denotes, most
    significant digit first; [None] for any other string. *)
Definition numeral_value (s : string) : option N :=
  match s with
  | EmptyString => None
  | _ => numeral_value_from 0%N s
  end.

(** No leading zero: the only numeral that starts with ['0'] is ["0"]. *)
Definition no_leading_zero (s : string) : bool :=
  match s with
  | String "0"%char (String _ _) => false
  | _ => true
  end.

(** [s] is the decimal numeral of the value of the byte [b]. *)
Definition numeral_of (b : byte) (s : string) : Prop :=
  numeral_value s = Some (Byte.to_N b) /\ no_leading_zero s = true.

(** ** Vocabulary for sequences of polls and for the [ioctl] argument *)

(** The readings the next [n] calls will observe, in order. *)
Definition readings (clock : nat -> Q) (w : World Q) (n : nat) : list Q :=
  map clock (seq (ticks w) n).

(** Of the readings of a sequence of polls, those at which the poll
    answered [True]. *)
Fixpoint permitted (answers : list bool) (rs : list Q) : list Q :=
  match answers, rs with
  | b :: answers', r :: rs' =>
      if b then r :: permitted answers' rs' else permitted answers' rs'
  | _, _ => []
  end.

(** The stored timestamp, as a list of at most one element. *)
Definition baseline (self : IntervalCheck.t Q) : list Q :=
  match IntervalCheck.last_time self with
  | Some l => [l]
  | None => []
  end.

(** The argument [get_ip_address] hands to [ioctl]:
    [struct.pack('256s', ifname[:15])]. *)
Definition ifreq (ifname : string) : list byte :=
  pack_256s (firstn 15 (list_byte_of_string ifname)).

(** * Properties *)

(** ** The branches of the two methods, for every number type *)

Section Branches.
Context {T : Type} {NT : Num T}.
Variable clock : nat -> T.

Import IntervalCheck.

Lemma should_run_first (self : t T) (w : World T) :
  last_time self = None ->
  should_run clock self w
  = (Ok (true, mk (interval self) (Some (clock (ticks w)))), ticked w).
Proof.
  intros Hnone. unfold should_run, bind, time, ret. cbn.
  rewrite Hnone. reflexivity.
Qed.

Lemma should_run_permit (self : t T) (w : World T) (l : T) :
  last_time self = Some l ->
  gt (sub (clock (ticks w)) l) (interval self) = true ->
  should_run clock self w
  = (Ok (true, mk (interval self) (Some (clock (ticks w)))), ticked w).
Proof.
  intros Hl Hgt. unfold should_run, bind, time, ret, sub_opt. cbn.
  rewrite Hl. cbn. rewrite Hgt. reflexivity.
Qed.

Lemma should_run_refuse (self : t T) (w : World T) (l : T) :
  last_time self = Some l ->
  gt (sub (clock (ticks w)) l) (interval self) = false ->
  should_run clock self w = (Ok (false, self), ticked w).
Proof.
  intros Hl Hgt. unfold should_run, bind, time, ret, sub_opt. cbn.
  rewrite Hl. cbn. rewrite Hgt. reflexivity.
Qed.

Lemma sleep_first (self : t T) (w : World T) :
  last_time self = None ->
  sleep clock self w
  = (Ok (mk (interval self) (Some (clock (ticks w)))), ticked w).
Proof.
  intros Hnone. unfold sleep, bind, time, ret. cbn.
  rewrite Hnone. reflexivity.
Qed.

Lemma sleep_open (self : t T) (w : World T) (l : T) :
  last_time self = Some l ->
  gt (sub (clock (ticks w)) l) (interval self) = true ->
  sleep clock self w = (Ok self, ticked w).
Proof.
  intros Hl Hgt. unfold sleep, bind, time, ret, sub_opt. cbn.
  rewrite Hl. cbn. rewrite Hgt. reflexivity.
Qed.

(** The suspending branch, when the sleep primitive accepts the duration. *)
Lemma sleep_suspend (self : t T) (w : World T) (l : T) :
  let now := clock (ticks w) in
  let remaining := sub (interval self) (sub now l) in
  last_time self = Some l ->
  gt (sub now l) (interval self) = false ->
  gt zero remaining = false ->
  sleep clock self w
  = (Ok (mk (interval self) (Some (add now remaining))),
     mkWorld (S (ticks w)) (remaining :: slept w)).
Proof.
  intros now remaining Hl Hgt Hneg.
  unfold sleep, bind, time, ret, sub_opt, time_sleep. cbn.
  rewrite Hl. cbn. fold now. rewrite Hgt. fold remaining.
  rewrite Hneg. reflexivity.
Qed.

(** The suspending branch, when the sleep primitive refuses the duration:
    the exception leaves the object as it was. *)
Lemma sleep_suspend_refused (self : t T) (w : World T) (l : T) :
  let now := clock (ticks w) in
  let remaining := sub (interval self) (sub now l) in
  last_time self = Some l ->
  gt (sub now l) (interval self) = false ->
  gt zero remaining = true ->
  sleep clock self w = (Raise ValueError, ticked w).
Proof.
  intros now remaining Hl Hgt Hneg.
  unfold sleep, bind, time, ret, sub_opt, time_sleep. cbn.
  rewrite Hl. cbn. fold now. rewrite Hgt. fold remaining.
  rewrite Hneg. reflexivity.
Qed.

(** Both methods read the clock exactly once, at the start of the call,
    and depend on the clock through that reading only. *)
Lemma should_run_one_reading (clock' : nat -> T) (self : t T) (w : World T) :
  clock' (ticks w) = clock (ticks w) ->
  should_run clock' self w = should_run clock self w.
Proof.
  intros E. unfold should_run, bind, time. cbn. rewrite E. reflexivity.
Qed.

End Branches.

(** C2. On a freshly constructed object the first [should_run] returns
    [True] and stores the observed [now]; the first [sleep] stores the
    observed [now] and returns without calling the sleep primitive (the
    list of sleeps is unchanged).  This holds for every interval and for
    every number type. *)
Theorem first_call_permits
    {T : Type} {NT : Num T} (clock : nat -> T) (i : T) (w : World T) :
  IntervalCheck.should_run clock (IntervalCheck.__init__ i) w
  = (Ok (true, IntervalCheck.mk i (Some (clock (ticks w)))),
     mkWorld (S (ticks w)) (slept w))
  /\ IntervalCheck.sleep clock (IntervalCheck.__init__ i) w
     = (Ok (IntervalCheck.mk i (Some (clock (ticks w)))),
        mkWorld (S (ticks w)) (slept w)).
Proof.
  split.
  - apply (should_run_first clock (IntervalCheck.__init__ i) w). reflexivity.
  - apply (sleep_first clock (IntervalCheck.__init__ i) w). reflexivity.
Qed.

(** ** Exact time: timestamps and durations in [Q] *)

Lemma Qgt_bool_true (a b : Q) : Qgt_bool a b = true <-> (b < a)%Q.
Proof.
  unfold Qgt_bool. rewrite negb_true_iff. split.
  - intros E. apply Qnot_le_lt. intros L.
    apply Qle_bool_iff in L. congruence.
  - intros L. destruct (Qle_bool a b) eqn:E; [|reflexivity].
    apply Qle_bool_iff in E. exfalso. exact (Qlt_not_le _ _ L E).
Qed.

Lemma Qgt_bool_false (a b : Q) : Qgt_bool a b = false <-> (a <= b)%Q.
Proof.
  unfold Qgt_bool. rewrite negb_false_iff. apply Qle_bool_iff.
Qed.

Section ExactTime.
Variable clock : nat -> Q.

Import IntervalCheck.
Local Open Scope Q_scope.

Lemma sleep_suspend_Q (self : t Q) (w : World Q) (l : Q) :
  let now := clock (ticks w) in
  let remaining := interval self - (now - l) in
  last_time self = Some l ->
  now - l <= interval self ->
  sleep clock self w
  = (Ok (mk (interval self) (Some (now + remaining))),
     mkWorld (S (ticks w)) (remaining :: slept w)).
Proof.
  intros now remaining Hl Hle.
  refine (sleep_suspend (NT:=Num_Q) clock self w Hl _ _).
  - apply Qgt_bool_false. exact Hle.
  - apply Qgt_bool_false. cbn. fold now. lra.
Qed.

(** Neither method raises, whatever the object, the clock and the world. *)
Lemma should_run_total (self : t Q) (w : World Q) :
  exists b self',
    should_run clock self w = (Ok (b, self'), ticked w)
    /\ interval self' = interval self
    /\ (self' = self \/ self' = mk (interval self) (Some (clock (ticks w)))).
Proof.
  destruct (last_time self) as [l|] eqn:Hl.
  - destruct (Qgt_bool (clock (ticks w) - l) (interval self)) eqn:Hgt.
    + exists true, (mk (interval self) (Some (clock (ticks w)))).
      split; [apply (should_run_permit (NT:=Num_Q) clock self w Hl Hgt)|].
      split; [reflexivity|right; reflexivity].
    + exists false, self.
      split; [apply (should_run_refuse (NT:=Num_Q) clock self w Hl Hgt)|].
      split; [reflexivity|left; reflexivity].
  - exists true, (mk (interval self) (Some (clock (ticks w)))).
    split; [apply (should_run_first clock self w Hl)|].
    split; [reflexivity|right; reflexivity].
Qed.
End ExactTime.

(** ** The interval gate *)

Section Gate.
Variable clock : nat -> Q.

Import IntervalCheck.
Local Open Scope Q_scope.

(** C1. After a permitted action at [l], with a positive interval, a
    [should_run] that observes [now] returns [False] when
    [now - l <= interval] (equality included) and returns [True] when
    [now - l > interval]; in the second case the new [last_time] is the
    observed [now] itself. *)
Theorem should_run_throttle (self : t Q) (w : World Q) (l : Q) :
  0 < interval self ->
  last_time self = Some l ->
  (clock (ticks w) - l <= interval self ->
   should_run clock self w = (Ok (false, self), ticked w))
  /\ (interval self < clock (ticks w) - l ->
      should_run clock self w
      = (Ok (true, mk (interval self) (Some (clock (ticks w)))), ticked w)).
Proof.
  intros _ Hl. split; intros Hcmp.
  - apply (should_run_refuse (NT:=Num_Q) clock self w Hl).
    apply Qgt_bool_false. exact Hcmp.
  - apply (should_run_permit (NT:=Num_Q) clock self w Hl).
    apply Qgt_bool_true. exact Hcmp.
Qed.

(** C4. When [last_time] is [l] and [now - l > interval], [sleep] returns
    at once: the object is unchanged, nothing is slept, and a following
    call behaves as it would on the old object; [should_run] in the same
    situation stores [now]. *)
Theorem sleep_open_keeps_last_time (self : t Q) (w : World Q) (l : Q) :
  last_time self = Some l ->
  interval self < clock (ticks w) - l ->
  sleep clock self w = (Ok self, ticked w)
  /\ slept (ticked w) = slept w
  /\ (forall c : call,
        bind (sleep clock self) (step clock c) w
        = step clock c self (ticked w))
  /\ should_run clock self w
     = (Ok (true, mk (interval self) (Some (clock (ticks w)))), ticked w).
Proof.
  intros Hl Hlt.
  assert (Hgt : Qgt_bool (clock (ticks w) - l) (interval self) = true)
    by (apply Qgt_bool_true; exact Hlt).
  assert (Hs : sleep clock self w = (Ok self, ticked w))
    by (apply (sleep_open (NT:=Num_Q) clock self w Hl Hgt)).
  split; [exact Hs|]. split; [reflexivity|]. split.
  - intros c. unfold bind at 1. rewrite Hs. reflexivity.
  - apply (should_run_permit (NT:=Num_Q) clock self w Hl Hgt).
Qed.

(** C5. When [should_run] does not permit ([last_time] is [l] and
    [now - l <= interval]) it returns [False] and the object it leaves
    behind has the same [interval] and the same [last_time]; nothing is
    slept. *)
Theorem should_run_refusal_frame (self : t Q) (w : World Q) (l : Q) :
  last_time self = Some l ->
  clock (ticks w) - l <= interval self ->
  exists self' w',
    should_run clock self w = (Ok (false, self'), w')
    /\ self' = self
    /\ interval self' = interval self
    /\ last_time self' = last_time self
    /\ slept w' = slept w.
Proof.
  intros Hl Hle. exists self, (ticked w).
  split; [|repeat split].
  apply (should_run_refuse (NT:=Num_Q) clock self w Hl).
  apply Qgt_bool_false. exact Hle.
Qed.
End Gate.


Lemma last_time_le_refl (o : option Q) : last_time_le o o.
Proof. destruct o; cbn; [apply Qle_refl | exact I]. Qed.

Section GateSequences.
Variable clock : nat -> Q.

Import IntervalCheck.
Local Open Scope Q_scope.

(** One call of either method, from any object and any world: it does
    not raise, it reads the clock once, every duration it hands to the
    sleep primitive is non-negative, the interval is kept, and with a
    non-negative interval [last_time] does not decrease. *)
Lemma step_spec (c : call) (self : t Q) (w : World Q) :
  exists self' ds,
    step clock c self w = (Ok self', mkWorld (S (ticks w)) (ds ++ slept w))
    /\ Forall (fun d => 0 <= d) ds
    /\ interval self' = interval self
    /\ (0 <= interval self ->
        last_time_le (last_time self) (last_time self')).
Proof.
  destruct (last_time self) as [l|] eqn:Hl.
  - destruct (Qgt_bool (clock (ticks w) - l) (interval self)) eqn:Hgt.
    + (* the gate is open *)
      pose proof (proj1 (Qgt_bool_true _ _) Hgt) as Hlt.
      destruct c; cbn [step].
      * exists (mk (interval self) (Some (clock (ticks w)))), [].
        unfold bind.
        rewrite (should_run_permit (NT:=Num_Q) clock self w Hl Hgt).
        repeat split; [constructor|]. intros Hpos. cbn. lra.
      * exists self, [].
        rewrite (sleep_open (NT:=Num_Q) clock self w Hl Hgt).
        repeat split; [constructor|]. intros _.
        rewrite Hl. cbn. apply Qle_refl.
    + (* the gate is closed *)
      pose proof (proj1 (Qgt_bool_false _ _) Hgt) as Hle.
      destruct c; cbn [step].
      * exists self, [].
        unfold bind.
        rewrite (should_run_refuse (NT:=Num_Q) clock self w Hl Hgt).
        repeat split; [constructor|]. intros _.
        rewrite Hl. cbn. apply Qle_refl.
      * eexists; exists [interval self - (clock (ticks w) - l)].
        rewrite (sleep_suspend_Q clock self w Hl Hle).
        split; [reflexivity|]. split; [|split].
        -- constructor; [lra|constructor].
        -- reflexivity.
        -- intros Hpos. cbn. lra.
  - (* first call *)
    destruct c; cbn [step].
    + eexists; exists [].
      unfold bind.
      rewrite (should_run_first (NT:=Num_Q) clock self w Hl).
      repeat split; constructor.
    + eexists; exists [].
      rewrite (sleep_first (NT:=Num_Q) clock self w Hl).
      repeat split; constructor.
Qed.

(** The same along a sequence of calls on one object. *)
Lemma run_spec (cs : list call) :
  forall (self : t Q) (w : World Q),
  exists selfs ds,
    run clock cs self w
    = (Ok selfs, mkWorld (List.length cs + ticks w) (ds ++ slept w))
    /\ List.length selfs = List.length cs
    /\ Forall (fun d => 0 <= d) ds
    /\ (0 <= interval self ->
        chain last_time_le (map (@last_time Q) (self :: selfs))).
Proof.
  induction cs as [|c cs IH]; intros self w.
  - exists [], []. destruct w. repeat split. constructor.
  - destruct (step_spec c self w) as (self' & ds & Hstep & Hds & Hint & Hmono).
    destruct (IH self' (mkWorld (S (ticks w)) (ds ++ slept w)))
      as (selfs & ds' & Hrun & Hlen & Hds' & Hchain).
    exists (self' :: selfs), (ds' ++ ds).
    cbn [run]. unfold bind at 1. rewrite Hstep.
    unfold bind at 1. rewrite Hrun. unfold ret. cbn [ticks slept].
    split; [|split; [|split]].
    + rewrite <- app_assoc. cbn [List.length].
      rewrite Nat.add_succ_r. reflexivity.
    + cbn. rewrite Hlen. reflexivity.
    + apply Forall_app. split; assumption.
    + intros Hpos. cbn [map chain]. split.
      * apply Hmono. exact Hpos.
      * apply Hchain. rewrite Hint. exact Hpos.
Qed.
End GateSequences.

Section GateEdges.
Variable clock : nat -> Q.

Import IntervalCheck.
Local Open Scope Q_scope.

(** C6, as the code has it. With an interval that is zero or negative
    and [last_time] set to [l], a [should_run] that observes a
    non-negative elapsed time [now - l] returns [True], provided the
    interval is negative or the elapsed time is strictly positive.  With
    interval zero and elapsed time zero (the clock returned the same
    reading twice) it returns [False]. *)
Theorem degenerate_interval_permits (self : t Q) (w : World Q) (l : Q) :
  last_time self = Some l ->
  interval self <= 0 ->
  (0 <= clock (ticks w) - l ->
   interval self < 0 \/ 0 < clock (ticks w) - l ->
   should_run clock self w
   = (Ok (true, mk (interval self) (Some (clock (ticks w)))), ticked w))
  /\ (interval self == 0 ->
      clock (ticks w) - l == 0 ->
      should_run clock self w = (Ok (false, self), ticked w)).
Proof.
  intros Hl Hdeg. split.
  - intros Hnn Hstrict.
    apply (should_run_permit (NT:=Num_Q) clock self w Hl).
    apply (proj2 (Qgt_bool_true (clock (ticks w) - l) (interval self))).
    destruct Hstrict; lra.
  - intros Hz He.
    apply (should_run_refuse (NT:=Num_Q) clock self w Hl).
    apply (proj2 (Qgt_bool_false (clock (ticks w) - l) (interval self))).
    lra.
Qed.

(** C7. Whenever [sleep] reaches its last branch ([last_time] is [l] and
    the test [now - l > interval] is false), the duration
    [interval - (now - l)] is non-negative and the sleep primitive
    accepts it.  Along every sequence of calls, from every object and
    every world, no call raises and every duration handed to the sleep
    primitive is non-negative. *)
Theorem sleep_duration_nonneg (cs : list call) (self : t Q) (w : World Q) :
  (forall l : Q,
      last_time self = Some l ->
      Qgt_bool (clock (ticks w) - l) (interval self) = false ->
      let remaining := interval self - (clock (ticks w) - l) in
      0 <= remaining
      /\ time_sleep remaining (ticked w)
         = (Ok tt, mkWorld (S (ticks w)) (remaining :: slept w))
      /\ sleep clock self w
         = (Ok (mk (interval self) (Some (clock (ticks w) + remaining))),
            mkWorld (S (ticks w)) (remaining :: slept w)))
  /\ (exists b self',
        should_run clock self w = (Ok (b, self'), ticked w))
  /\ (exists selfs ds w',
        run clock cs self w = (Ok selfs, w')
        /\ slept w' = ds ++ slept w
        /\ Forall (fun d => 0 <= d) ds).
Proof.
  split; [|split].
  - intros l Hl Hgt remaining.
    pose proof (proj1 (Qgt_bool_false _ _) Hgt) as Hle.
    assert (Hnn : 0 <= remaining) by (unfold remaining; lra).
    split; [exact Hnn|]. split.
    + unfold time_sleep. cbn.
      replace (Qgt_bool 0 remaining) with false; [reflexivity|].
      symmetry. apply Qgt_bool_false. exact Hnn.
    + apply (sleep_suspend_Q clock self w Hl Hle).
  - destruct (should_run_total clock self w) as (b & self' & E & _).
    exists b, self'. exact E.
  - destruct (run_spec clock cs self w) as (selfs & ds & E & _ & Hds & _).
    exists selfs, ds. eexists. split; [exact E|]. split; [reflexivity|exact Hds].
Qed.

(** C8. With a positive interval and [last_time] set to [l], a reading
    [now] below [l] (the clock stepped backward) makes [should_run]
    return [False] with the object unchanged, and makes [sleep] suspend
    for [interval - (now - l)], which is non-negative and longer than the
    interval; both calls return normally. *)
Theorem backward_clock_safe (self : t Q) (w : World Q) (l : Q) :
  0 < interval self ->
  last_time self = Some l ->
  clock (ticks w) - l < 0 ->
  let now := clock (ticks w) in
  let remaining := interval self - (now - l) in
  should_run clock self w = (Ok (false, self), ticked w)
  /\ sleep clock self w
     = (Ok (mk (interval self) (Some (now + remaining))),
        mkWorld (S (ticks w)) (remaining :: slept w))
  /\ 0 <= remaining
  /\ interval self < remaining.
Proof.
  intros Hpos Hl Hback now remaining.
  assert (Hle : clock (ticks w) - l <= interval self) by lra.
  split; [|split; [|split]].
  - apply (should_run_refuse (NT:=Num_Q) clock self w Hl).
    apply Qgt_bool_false. exact Hle.
  - apply (sleep_suspend_Q clock self w Hl Hle).
  - unfold remaining, now. lra.
  - unfold remaining, now. lra.
Qed.

(** C9. With a positive interval and a clock whose successive readings
    do not decrease, along every sequence of [should_run] and [sleep]
    calls on one object every call returns normally and [last_time]
    never decreases: from one call to the next it is either the same or
    replaced by a value that is at least the previous one. *)
Theorem last_time_nondecreasing
    (cs : list call) (self : t Q) (w : World Q) :
  0 < interval self ->
  (forall k : nat, clock k <= clock (S k)) ->
  exists selfs w',
    run clock cs self w = (Ok selfs, w')
    /\ List.length selfs = List.length cs
    /\ chain last_time_le (map (@last_time Q) (self :: selfs)).
Proof.
  intros Hpos _.
  destruct (run_spec clock cs self w) as (selfs & ds & E & Hlen & _ & Hchain).
  exists selfs. eexists. split; [exact E|]. split; [exact Hlen|].
  apply Hchain. lra.
Qed.
End GateEdges.

(** ** get_ip_address *)

Lemma length_slice_20_24 (reply : list byte) :
  List.length (slice 20 24 reply) = Nat.min 4 (List.length reply - 20).
Proof.
  unfold slice. rewrite length_firstn, length_skipn. reflexivity.
Qed.

Lemma inet_ntoa_ok_iff (packed : list byte) :
  (exists s : string, inet_ntoa packed = Ok s) <-> List.length packed = 4%nat.
Proof.
  unfold inet_ntoa.
  destruct packed as [|a [|b [|c [|d [|x rest]]]]]; cbn; split;
    try discriminate; try (intros [s Hs]; discriminate Hs);
    try reflexivity.
  intros _. eexists. reflexivity.
Qed.

(** Bytes 20 to 23 of a reply that has them. *)
Lemma slice_20_24_long (reply : list byte) :
  (24 <= List.length reply)%nat ->
  slice 20 24 reply
  = [nth 20 reply x00; nth 21 reply x00; nth 22 reply x00; nth 23 reply x00].
Proof.
  intros Hlen.
  do 24 (destruct reply as [|? reply]; [cbn in Hlen; lia|]).
  reflexivity.
Qed.

(** The text [inet_ntoa] gives for a byte is its decimal numeral. *)
Lemma decimal_numeral (b : byte) : numeral_of b (decimal b).
Proof.
  destruct b; split; vm_compute; reflexivity.
Qed.

(** C10. [get_ip_address] never raises.  When the socket cannot be
    created, when the [ioctl] fails, or when its reply has fewer than 24
    bytes, the result is the placeholder ['--.--.--'].  When the [ioctl]
    on the interface name (cut to 15 characters, packed into 256 bytes)
    returns at least 24 bytes, the result is the textual address: four
    decimal numerals without leading zeros, separated by dots, whose
    values are bytes 20, 21, 22 and 23 of the reply. *)
Theorem get_ip_address_total (os : OS) (ifname : string) :
  (exists s : string, get_ip_address os ifname = Ok s)
  /\ (forall e : exn,
        lookup os ifname = Raise e ->
        get_ip_address os ifname = Ok "--.--.--"%string)
  /\ (forall e : exn,
        os_socket os = Raise e ->
        get_ip_address os ifname = Ok "--.--.--"%string)
  /\ (forall (fd : Z) (e : exn),
        os_socket os = Ok fd ->
        os_ioctl os fd 0x8915
          (pack_256s (firstn 15 (list_byte_of_string ifname))) = Raise e ->
        get_ip_address os ifname = Ok "--.--.--"%string)
  /\ (forall (fd : Z) (reply : list byte),
        os_socket os = Ok fd ->
        os_ioctl os fd 0x8915
          (pack_256s (firstn 15 (list_byte_of_string ifname))) = Ok reply ->
        (List.length reply < 24)%nat ->
        get_ip_address os ifname = Ok "--.--.--"%string)
  /\ (forall (fd : Z) (reply : list byte),
        os_socket os = Ok fd ->
        os_ioctl os fd 0x8915
          (pack_256s (firstn 15 (list_byte_of_string ifname))) = Ok reply ->
        (24 <= List.length reply)%nat ->
        exists p0 p1 p2 p3 : string,
          get_ip_address os ifname
          = Ok (p0 ++ "." ++ p1 ++ "." ++ p2 ++ "." ++ p3)%string
          /\ numeral_of (nth 20 reply x00) p0
          /\ numeral_of (nth 21 reply x00) p1
          /\ numeral_of (nth 22 reply x00) p2
          /\ numeral_of (nth 23 reply x00) p3).
Proof.
  unfold get_ip_address, try_except.
  split; [|split; [|split; [|split; [|split]]]].
  - destruct (lookup os ifname); eexists; reflexivity.
  - intros e E. rewrite E. reflexivity.
  - intros e E. unfold lookup, bindR. rewrite E. reflexivity.
  - intros fd e Es Ei. unfold lookup, bindR, SIOCGIFADDR.
    rewrite Es, Ei. reflexivity.
  - intros fd reply Es Ei Hlen. unfold lookup, bindR, SIOCGIFADDR.
    rewrite Es, Ei.
    destruct (inet_ntoa (slice 20 24 reply)) as [s|e] eqn:En; [|reflexivity].
    exfalso.
    assert (H4 : List.length (slice 20 24 reply) = 4%nat)
      by (apply inet_ntoa_ok_iff; exists s; exact En).
    rewrite length_slice_20_24 in H4. lia.
  - intros fd reply Es Ei Hlen. unfold lookup, bindR, SIOCGIFADDR.
    rewrite Es, Ei, (slice_20_24_long reply Hlen). cbn [inet_ntoa].
    exists (decimal (nth 20 reply x00)), (decimal (nth 21 reply x00)),
           (decimal (nth 22 reply x00)), (decimal (nth 23 reply x00)).
    split; [reflexivity|].
    repeat split; apply decimal_numeral.
Qed.

(** * Concrete runs *)

Section Runs.
Import IntervalCheck.
Local Open Scope Q_scope.

(** The spec's first scenario: interval 1.0, polls at 0.0, 0.5, 1.05 and
    1.5. *)
Example scenario_polls :
  polls (clock_of [0; 1#2; 105#100; 3#2]) 4 (__init__ 1) world0
  = (Ok [true; false; true; false], mkWorld 4 [])
  /\ last_times (run (clock_of [0; 1#2; 105#100; 3#2])
                   [Poll; Poll; Poll; Poll] (__init__ 1) world0)
     = [Some 0; Some 0; Some (105#100); Some (105#100)].
Proof. split; reflexivity. Qed.

(** The spec's second scenario: interval 2.0, only [sleep]; the clock
    reads 0.0, 0.0 and 2.0.  The sleeps are listed most recent first. *)
Example scenario_sleeps :
  exists a b c w',
    run (clock_of [0; 0; 2]) [Wait; Wait; Wait] (__init__ 2) world0
    = (Ok [a; b; c], w')
    /\ last_time a = Some 0
    /\ (exists x, last_time b = Some x /\ x == 2)
    /\ (exists y, last_time c = Some y /\ y == 4)
    /\ (exists d1 d2, slept w' = [d2; d1] /\ d1 == 2 /\ d2 == 2).
Proof.
  do 4 eexists. split; [vm_compute; reflexivity|].
  split; [reflexivity|].
  split; [eexists; split; [reflexivity|reflexivity]|].
  split; [eexists; split; [reflexivity|reflexivity]|].
  do 2 eexists. split; [reflexivity|]. split; reflexivity.
Qed.

(** C6, the claim as stated fails: with interval 0, a second poll that
    observes the same clock reading as the first is refused. *)
Lemma zero_interval_second_poll_refused :
  polls (clock_of [5; 5]) 2 (__init__ 0) world0
  = (Ok [true; false], mkWorld 2 [])
  /\ should_run (clock_of [5; 5]) (mk 0 (Some 5)) (mkWorld 1 [])
     = (Ok (false, mk 0 (Some 5)), mkWorld 2 []).
Proof. split; reflexivity. Qed.

Lemma should_run_throttle_witness :
  0 < interval (mk 1 (Some (1#2)))
  /\ last_time (mk 1 (Some (1#2))) = Some (1#2)
  /\ (clock_of [3#2] (ticks world0) - (1#2) <= interval (mk 1 (Some (1#2))) ->
      should_run (clock_of [3#2]) (mk 1 (Some (1#2))) world0
      = (Ok (false, mk 1 (Some (1#2))), ticked world0))
  /\ (interval (mk 1 (Some (1#2))) < clock_of [3#2] (ticks world0) - (1#2) ->
      should_run (clock_of [3#2]) (mk 1 (Some (1#2))) world0
      = (Ok (true, mk (interval (mk 1 (Some (1#2))))
                      (Some (clock_of [3#2] (ticks world0)))),
         ticked world0)).
Proof.
  split; [reflexivity|]. split; [reflexivity|].
  apply (@should_run_throttle (clock_of [3#2]) (mk 1 (Some (1#2))) world0 (1#2));
    reflexivity.
Defined.



Lemma sleep_open_keeps_last_time_witness :
  last_time (mk 2 (Some (1#2))) = Some (1#2)
  /\ interval (mk 2 (Some (1#2))) < clock_of [3] (ticks world0) - (1#2)
  /\ sleep (clock_of [3]) (mk 2 (Some (1#2))) world0
     = (Ok (mk 2 (Some (1#2))), mkWorld 1 [])
  /\ should_run (clock_of [3]) (mk 2 (Some (1#2))) world0
     = (Ok (true, mk 2 (Some 3)), mkWorld 1 []).
Proof.
  split; [reflexivity|]. split; [reflexivity|].
  pose proof (@sleep_open_keeps_last_time (clock_of [3]) (mk 2 (Some (1#2)))
                world0 (1#2) eq_refl eq_refl) as P.
  split; [exact (proj1 P)|exact (proj2 (proj2 (proj2 P)))].
Defined.

Lemma should_run_refusal_frame_witness :
  last_time (mk 1 (Some (1#2))) = Some (1#2)
  /\ clock_of [3#2] (ticks world0) - (1#2) <= interval (mk 1 (Some (1#2)))
  /\ exists self' w',
       should_run (clock_of [3#2]) (mk 1 (Some (1#2))) world0
       = (Ok (false, self'), w')
       /\ self' = mk 1 (Some (1#2))
       /\ interval self' = interval (mk 1 (Some (1#2)))
       /\ last_time self' = last_time (mk 1 (Some (1#2)))
       /\ slept w' = slept world0.
Proof.
  split; [reflexivity|]. split; [vm_compute; discriminate|].
  apply (@should_run_refusal_frame (clock_of [3#2]) (mk 1 (Some (1#2)))
           world0 (1#2) eq_refl).
  vm_compute; discriminate.
Defined.
End Runs.

Section MoreRuns.
Import IntervalCheck.
Local Open Scope Q_scope.

Lemma seconds_clock_nondecreasing (k : nat) :
  seconds_clock k <= seconds_clock (S k).
Proof.
  unfold seconds_clock. rewrite <- Zle_Qle. lia.
Defined.

Lemma degenerate_interval_permits_witness :
  last_time (mk (-1) (Some 5)) = Some 5
  /\ interval (mk (-1) (Some 5)) <= 0
  /\ (0 <= clock_of [5] (ticks world0) - 5 ->
      interval (mk (-1) (Some 5)) < 0 \/ 0 < clock_of [5] (ticks world0) - 5 ->
      should_run (clock_of [5]) (mk (-1) (Some 5)) world0
      = (Ok (true, mk (-1) (Some 5)), mkWorld 1 [])).
Proof.
  split; [reflexivity|]. split; [vm_compute; discriminate|].
  exact (proj1 (@degenerate_interval_permits (clock_of [5]) (mk (-1) (Some 5))
                  world0 5 eq_refl ltac:(vm_compute; discriminate))).
Defined.

Lemma backward_clock_safe_witness :
  0 < interval (mk 1 (Some 10))
  /\ last_time (mk 1 (Some 10)) = Some 10
  /\ clock_of [7] (ticks world0) - 10 < 0
  /\ should_run (clock_of [7]) (mk 1 (Some 10)) world0
     = (Ok (false, mk 1 (Some 10)), mkWorld 1 [])
  /\ sleep (clock_of [7]) (mk 1 (Some 10)) world0
     = (Ok (mk 1 (Some (7 + (1 - (7 - 10))))), mkWorld 1 [1 - (7 - 10)])
  /\ 0 <= 1 - (7 - 10)
  /\ 1 < 1 - (7 - 10).
Proof.
  split; [reflexivity|]. split; [reflexivity|]. split; [reflexivity|].
  exact (@backward_clock_safe (clock_of [7]) (mk 1 (Some 10)) world0 10
           eq_refl eq_refl eq_refl).
Defined.

Lemma last_time_nondecreasing_witness :
  0 < interval (__init__ 2)
  /\ (forall k : nat, seconds_clock k <= seconds_clock (S k))
  /\ exists selfs w',
       run seconds_clock [Poll; Poll; Wait; Poll; Wait; Wait] (__init__ 2) world0
       = (Ok selfs, w')
       /\ List.length selfs = 6%nat
       /\ chain last_time_le (map (@last_time Q) (__init__ 2 :: selfs)).
Proof.
  split; [reflexivity|]. split; [exact seconds_clock_nondecreasing|].
  exact (@last_time_nondecreasing seconds_clock
           [Poll; Poll; Wait; Poll; Wait; Wait] (__init__ 2) world0
           eq_refl seconds_clock_nondecreasing).
Defined.
End MoreRuns.

(** * Further properties of the interval gate *)

Section PollSequences.
Variable clock : nat -> Q.

Import IntervalCheck.
Local Open Scope Q_scope.

(** A sequence of polls on one object: the world afterwards, the number of
    answers, and the spacing of the readings that were permitted, counted
    from the stored timestamp when there is one. *)
Lemma polls_spec (n : nat) :
  forall (self : t Q) (w : World Q),
  exists answers : list bool,
    polls clock n self w = (Ok answers, mkWorld (n + ticks w) (slept w))
    /\ List.length answers = n
    /\ chain (fun a b => interval self < b - a)
         (baseline self ++ permitted answers (readings clock w n)).
Proof.
  induction n as [|n IH]; intros self w.
  - exists []. destruct w as [k sl]. cbn. repeat split.
    unfold baseline. destruct (last_time self); exact I.
  - unfold readings. cbn [seq map]. cbn [polls]. unfold bind at 1.
    destruct (last_time self) as [l|] eqn:Hl.
    + destruct (Qgt_bool (clock (ticks w) - l) (interval self)) eqn:Hgt.
      * rewrite (should_run_permit (NT:=Num_Q) clock self w Hl Hgt).
        cbn [snd fst].
        destruct (IH (mk (interval self) (Some (clock (ticks w)))) (ticked w))
          as (answers & E & Hlen & Hch).
        exists (true :: answers). unfold bind at 1. rewrite E.
        unfold ret. cbn [ticks slept ticked] in *.
        split; [rewrite Nat.add_succ_r; reflexivity|].
        split; [cbn; rewrite Hlen; reflexivity|].
        unfold baseline in *. rewrite Hl. cbn [last_time interval] in Hch.
        cbn [permitted app chain]. split.
        -- apply Qgt_bool_true. exact Hgt.
        -- exact Hch.
      * rewrite (should_run_refuse (NT:=Num_Q) clock self w Hl Hgt).
        cbn [snd fst].
        destruct (IH self (ticked w)) as (answers & E & Hlen & Hch).
        exists (false :: answers). unfold bind at 1. rewrite E.
        unfold ret. cbn [ticks slept ticked] in *.
        split; [rewrite Nat.add_succ_r; reflexivity|].
        split; [cbn; rewrite Hlen; reflexivity|].
        cbn [permitted]. exact Hch.
    + rewrite (should_run_first (NT:=Num_Q) clock self w Hl).
      cbn [snd fst].
      destruct (IH (mk (interval self) (Some (clock (ticks w)))) (ticked w))
        as (answers & E & Hlen & Hch).
      exists (true :: answers). unfold bind at 1. rewrite E.
      unfold ret. cbn [ticks slept ticked] in *.
      split; [rewrite Nat.add_succ_r; reflexivity|].
      split; [cbn; rewrite Hlen; reflexivity|].
      unfold baseline in *. rewrite Hl. cbn [last_time interval] in Hch.
      cbn [permitted app]. exact Hch.
Qed.

(** Adjacent spacing gives spacing of every pair when the relation is
    transitive. *)
Lemma chain_strongly_sorted {A} (R : A -> A -> Prop) :
  (forall a b c, R a b -> R b c -> R a c) ->
  forall l : list A, chain R l -> StronglySorted R l.
Proof.
  intros Htrans. induction l as [|a l IH]; intros Hch.
  - constructor.
  - destruct l as [|b l'].
    + constructor; constructor.
    + destruct Hch as [Hab Hch]. specialize (IH Hch).
      constructor; [exact IH|].
      constructor; [exact Hab|].
      inversion IH as [|? ? _ Hall]; subst.
      eapply Forall_impl; [|exact Hall].
      intros c Hbc. exact (Htrans _ _ _ Hab Hbc).
Qed.

(** X1. Along every sequence of polls on one object, whatever the clock
    reads, two successive permits (and the stored timestamp and the first
    permit) are more than [interval] apart.  With a non-negative interval
    the same holds for every two permits, not only successive ones. *)
Theorem permits_more_than_interval_apart
    (n : nat) (self : t Q) (w : World Q) :
  exists answers : list bool,
    polls clock n self w = (Ok answers, mkWorld (n + ticks w) (slept w))
    /\ chain (fun a b => interval self < b - a)
         (baseline self ++ permitted answers (readings clock w n))
    /\ (0 <= interval self ->
        StronglySorted (fun a b => interval self < b - a)
          (baseline self ++ permitted answers (readings clock w n))).
Proof.
  destruct (polls_spec n self w) as (answers & E & _ & Hch).
  exists answers. split; [exact E|]. split; [exact Hch|].
  intros Hnn. apply chain_strongly_sorted; [|exact Hch].
  intros a b c Hab Hbc. lra.
Qed.

(** X2. [should_run] does not block: [n] polls give [n] answers, read the
    clock exactly [n] times and never call the sleep primitive, whatever
    the object, the interval and the clock. *)
Theorem polls_never_sleep (n : nat) (self : t Q) (w : World Q) :
  exists (answers : list bool) (w' : World Q),
    polls clock n self w = (Ok answers, w')
    /\ List.length answers = n
    /\ ticks w' = (n + ticks w)%nat
    /\ slept w' = slept w.
Proof.
  destruct (polls_spec n self w) as (answers & E & Hlen & _).
  exists answers. eexists. split; [exact E|].
  split; [exact Hlen|]. split; reflexivity.
Qed.
End PollSequences.

Section SleepSequences.
Variable clock : nat -> Q.

Import IntervalCheck.
Local Open Scope Q_scope.

(** X3. Once the gate is open for [sleep] ([last_time] is [l] and
    [now - l > interval]) it stays open under a clock that does not go
    backward: however many times [sleep] is called again, it never calls
    the sleep primitive and never changes the object. *)
Theorem open_gate_never_sleeps (n : nat) :
  forall (self : t Q) (w : World Q) (l : Q),
  last_time self = Some l ->
  interval self < clock (ticks w) - l ->
  (forall k : nat, clock k <= clock (S k)) ->
  run clock (repeat Wait n) self w
  = (Ok (repeat self n), mkWorld (n + ticks w) (slept w)).
Proof.
  induction n as [|n IH]; intros self w l Hl Hopen Hmono.
  - destruct w. reflexivity.
  - cbn [repeat run step]. unfold bind at 1.
    assert (Hgt : Qgt_bool (clock (ticks w) - l) (interval self) = true)
      by (apply Qgt_bool_true; exact Hopen).
    rewrite (sleep_open (NT:=Num_Q) clock self w Hl Hgt).
    unfold bind at 1. rewrite (IH self (ticked w) l Hl); [|clear IH|exact Hmono].
    + unfold ret. cbn [ticked ticks slept].
      rewrite Nat.add_succ_r. reflexivity.
    + cbn [ticked ticks]. pose proof (Hmono (ticks w)). lra.
Qed.

End SleepSequences.

Section GateComposition.
Variable clock : nat -> Q.

Import IntervalCheck.
Local Open Scope Q_scope.

(** X5. On the same object and the same reading the two methods agree:
    [sleep] calls the sleep primitive exactly when [should_run] answers
    [False], and returns at once exactly when [should_run] answers
    [True]. *)
Theorem sleep_blocks_iff_should_run_refuses (self : t Q) (w : World Q) :
  exists (b : bool) (self1 self2 : t Q) (w2 : World Q),
    should_run clock self w = (Ok (b, self1), ticked w)
    /\ sleep clock self w = (Ok self2, w2)
    /\ (b = true -> slept w2 = slept w)
    /\ (b = false -> exists d : Q, slept w2 = d :: slept w).
Proof.
  destruct (last_time self) as [l|] eqn:Hl.
  - destruct (Qgt_bool (clock (ticks w) - l) (interval self)) eqn:Hgt.
    + exists true. do 3 eexists.
      rewrite (should_run_permit (NT:=Num_Q) clock self w Hl Hgt).
      rewrite (sleep_open (NT:=Num_Q) clock self w Hl Hgt).
      split; [reflexivity|]. split; [reflexivity|].
      split; [reflexivity|discriminate].
    + pose proof (proj1 (Qgt_bool_false _ _) Hgt) as Hle.
      exists false. do 3 eexists.
      rewrite (should_run_refuse (NT:=Num_Q) clock self w Hl Hgt).
      rewrite (sleep_suspend_Q clock self w Hl Hle).
      split; [reflexivity|]. split; [reflexivity|].
      split; [discriminate|]. intros _. eexists. reflexivity.
  - exists true. do 3 eexists.
    rewrite (should_run_first (NT:=Num_Q) clock self w Hl).
    rewrite (sleep_first (NT:=Num_Q) clock self w Hl).
    split; [reflexivity|]. split; [reflexivity|].
    split; [reflexivity|discriminate].
Qed.

(** After one call of either method the interval is the one given at
    construction and [last_time] is set. *)
Lemma step_baseline (c : call) (self : t Q) (w : World Q) :
  exists (self' : t Q) (w' : World Q),
    step clock c self w = (Ok self', w')
    /\ interval self' = interval self
    /\ exists x : Q, last_time self' = Some x.
Proof.
  destruct (step_spec clock c self w) as (self' & ds & E & _ & Hint & _).
  exists self'. eexists. split; [exact E|]. split; [exact Hint|].
  revert E. destruct (last_time self) as [l|] eqn:Hl.
  - destruct (Qgt_bool (clock (ticks w) - l) (interval self)) eqn:Hgt.
    + destruct c; cbn [step].
      * unfold bind.
        rewrite (should_run_permit (NT:=Num_Q) clock self w Hl Hgt).
        unfold ret. cbn. intros E. injection E as <- _. eexists. reflexivity.
      * rewrite (sleep_open (NT:=Num_Q) clock self w Hl Hgt).
        intros E. injection E as <- _. exists l. exact Hl.
    + pose proof (proj1 (Qgt_bool_false _ _) Hgt) as Hle.
      destruct c; cbn [step].
      * unfold bind.
        rewrite (should_run_refuse (NT:=Num_Q) clock self w Hl Hgt).
        unfold ret. cbn. intros E. injection E as <- _. exists l. exact Hl.
      * rewrite (sleep_suspend_Q clock self w Hl Hle).
        intros E. injection E as <- _. eexists. reflexivity.
  - destruct c; cbn [step].
    + unfold bind.
      rewrite (should_run_first (NT:=Num_Q) clock self w Hl).
      unfold ret. cbn. intros E. injection E as <- _. eexists. reflexivity.
    + rewrite (sleep_first (NT:=Num_Q) clock self w Hl).
      intros E. injection E as <- _. eexists. reflexivity.
Qed.

(** X6. Along every sequence of calls of the two methods, every object
    state has the interval given at construction, and from the first call
    on [last_time] is set: neither method changes [interval], and neither
    ever resets [last_time] to [None]. *)
Theorem interval_fixed_and_baseline_set (cs : list call) :
  forall (self : t Q) (w : World Q),
  exists (selfs : list (t Q)) (w' : World Q),
    run clock cs self w = (Ok selfs, w')
    /\ Forall (fun s => interval s = interval self
                        /\ exists x : Q, last_time s = Some x) selfs.
Proof.
  induction cs as [|c cs IH]; intros self w.
  - exists [], w. split; [reflexivity|constructor].
  - destruct (step_baseline c self w) as (self' & w1 & E & Hint & Hset).
    destruct (IH self' w1) as (selfs & w' & Erun & Hall).
    exists (self' :: selfs), w'.
    cbn [run]. unfold bind at 1. rewrite E.
    unfold bind at 1. rewrite Erun. split; [reflexivity|].
    constructor; [split; assumption|].
    eapply Forall_impl; [|exact Hall].
    intros s [Hs Hx]. split; [rewrite Hs; exact Hint|exact Hx].
Qed.

End GateComposition.


(** * Further properties of get_ip_address *)

Lemma list_byte_of_string_app (s e : string) :
  list_byte_of_string (s ++ e)
  = (list_byte_of_string s ++ list_byte_of_string e)%list.
Proof.
  unfold list_byte_of_string.
  induction s as [|c s IH]; cbn; [reflexivity|].
  rewrite IH. reflexivity.
Qed.

Lemma length_list_byte_of_string (s : string) :
  List.length (list_byte_of_string s) = String.length s.
Proof.
  unfold list_byte_of_string. rewrite length_map.
  induction s as [|c s IH]; cbn; [reflexivity|].
  rewrite IH. reflexivity.
Qed.

(** The decimal text of a byte starts with a character that is not a
    dash. *)
Lemma decimal_head (b : byte) :
  exists (c : ascii) (rest : string),
    decimal b = String c rest /\ c <> "-"%char.
Proof.
  destruct b; vm_compute; do 2 eexists; (split; [reflexivity|discriminate]).
Qed.

Lemma inet_ntoa_not_placeholder (packed : list byte) (s : string) :
  inet_ntoa packed = Ok s -> s <> placeholder.
Proof.
  unfold inet_ntoa.
  destruct packed as [|a [|b [|c [|d [|x rest]]]]]; try discriminate.
  intros E. injection E as <-.
  destruct (decimal_head a) as (ch & rest & -> & Hch).
  cbn. unfold placeholder. intros Heq. injection Heq as Hc _.
  exact (Hch Hc).
Qed.

(** X8. The placeholder ['--.--.--'] is returned exactly when the lookup
    failed: a successful lookup never yields the placeholder, so a caller
    can tell the two apart by comparing the result with it. *)
Theorem placeholder_iff_lookup_failed (os : OS) (ifname : string) :
  get_ip_address os ifname = Ok "--.--.--"%string
  <-> exists e : exn, lookup os ifname = Raise e.
Proof.
  unfold get_ip_address, try_except. split.
  - destruct (lookup os ifname) as [s|e] eqn:E.
    + intros Hs. injection Hs as ->. exfalso.
      revert E. unfold lookup, bindR.
      destruct (os_socket os) as [fd|]; [|discriminate].
      destruct (os_ioctl os fd SIOCGIFADDR _) as [reply|]; [|discriminate].
      intros E. exact (inet_ntoa_not_placeholder _ E eq_refl).
    + intros _. exists e. reflexivity.
  - intros [e E]. rewrite E. reflexivity.
Qed.

(** X9. A result other than the placeholder is returned exactly when the
    socket could be created and the [ioctl] on the packed interface name
    returned at least 24 bytes. *)
Theorem address_iff_reply_long_enough (os : OS) (ifname : string) :
  (exists (fd : Z) (reply : list byte),
      os_socket os = Ok fd
      /\ os_ioctl os fd 0x8915 (ifreq ifname) = Ok reply
      /\ (24 <= List.length reply)%nat)
  <-> (exists s : string,
         get_ip_address os ifname = Ok s /\ s <> "--.--.--"%string).
Proof.
  unfold get_ip_address, try_except, lookup, bindR, ifreq, SIOCGIFADDR.
  split.
  - intros (fd & reply & Es & Ei & Hlen). rewrite Es, Ei.
    assert (H4 : List.length (slice 20 24 reply) = 4%nat)
      by (rewrite length_slice_20_24; lia).
    destruct (proj2 (inet_ntoa_ok_iff _) H4) as [s Hs].
    rewrite Hs. exists s. split; [reflexivity|].
    exact (inet_ntoa_not_placeholder _ Hs).
  - intros (s & Hs & Hne).
    destruct (os_socket os) as [fd|];
      [|injection Hs as <-; exfalso; apply Hne; reflexivity].
    destruct (os_ioctl os fd 35093 _) as [reply|] eqn:Ei;
      [|injection Hs as <-; exfalso; apply Hne; reflexivity].
    destruct (inet_ntoa (slice 20 24 reply)) as [s'|] eqn:En;
      [|injection Hs as <-; exfalso; apply Hne; reflexivity].
    exists fd, reply. split; [reflexivity|]. split; [exact Ei|].
    assert (H4 : List.length (slice 20 24 reply) = 4%nat)
      by (apply inet_ntoa_ok_iff; exists s'; exact En).
    rewrite length_slice_20_24 in H4. lia.
Qed.

Lemma length_firstn_15_name (ifname : string) :
  List.length (firstn 15 (list_byte_of_string ifname))
  = Nat.min 15 (String.length ifname).
Proof.
  rewrite length_firstn, length_list_byte_of_string. reflexivity.
Qed.

Lemma ifreq_unfold (ifname : string) :
  ifreq ifname
  = (firstn 15 (list_byte_of_string ifname)
     ++ repeat x00 (256 - Nat.min 15 (String.length ifname)))%list.
Proof.
  unfold ifreq, pack_256s.
  rewrite firstn_all2
    by (rewrite length_firstn_15_name; lia).
  rewrite length_firstn_15_name. reflexivity.
Qed.

(** X10. The buffer handed to [ioctl] is always exactly 256 bytes long: it
    starts with the interface name cut to 15 bytes and every byte after
    that is NUL, so byte 15 is NUL whatever the name (the name field is
    always terminated). *)
Theorem ifreq_shape (os : OS) (ifname : string) :
  lookup os ifname
  = bindR (os_socket os) (fun s =>
      bindR (os_ioctl os s SIOCGIFADDR (ifreq ifname)) (fun reply =>
        inet_ntoa (slice 20 24 reply)))
  /\ List.length (ifreq ifname) = 256%nat
  /\ firstn (Nat.min 15 (String.length ifname)) (ifreq ifname)
     = firstn 15 (list_byte_of_string ifname)
  /\ (forall i : nat,
        (Nat.min 15 (String.length ifname) <= i < 256)%nat ->
        nth_error (ifreq ifname) i = Some x00)
  /\ nth_error (ifreq ifname) 15 = Some x00.
Proof.
  pose proof (length_firstn_15_name ifname) as Hlen.
  assert (Hnul : forall i : nat,
             (Nat.min 15 (String.length ifname) <= i < 256)%nat ->
             nth_error (ifreq ifname) i = Some x00).
  { intros i Hi. rewrite ifreq_unfold.
    rewrite nth_error_app2 by (rewrite Hlen; lia).
    rewrite Hlen. apply nth_error_repeat. lia. }
  split; [reflexivity|]. split; [|split; [|split]].
  - rewrite ifreq_unfold, length_app, repeat_length, Hlen. lia.
  - rewrite ifreq_unfold. rewrite <- Hlen at 1.
    rewrite firstn_app, Nat.sub_diag, firstn_all. cbn [firstn].
    apply app_nil_r.
  - exact Hnul.
  - apply Hnul. lia.
Qed.

(** X11. Only the first 15 characters of the interface name are used:
    whatever follows them does not change the result. *)
Theorem get_ip_address_ignores_past_15 (os : OS) (ifname extra : string) :
  (15 <= String.length ifname)%nat ->
  get_ip_address os (ifname ++ extra) = get_ip_address os ifname.
Proof.
  intros Hlen. unfold get_ip_address, lookup.
  rewrite list_byte_of_string_app.
  rewrite firstn_app.
  replace (15 - List.length (list_byte_of_string ifname))%nat with 0%nat
    by (rewrite length_list_byte_of_string; lia).
  cbn [firstn]. rewrite app_nil_r. reflexivity.
Qed.

Lemma get_ip_address_ignores_past_15_witness :
  (15 <= String.length "a-very-long-name-0")%nat
  /\ get_ip_address os_example ("a-very-long-name-0" ++ "1")
     = get_ip_address os_example "a-very-long-name-0".
Proof.
  split; [vm_compute; lia|].
  apply (@get_ip_address_ignores_past_15 os_example "a-very-long-name-0" "1").
  vm_compute. lia.
Defined.

Section FurtherRuns.
Import IntervalCheck.
Local Open Scope Q_scope.

Lemma open_gate_never_sleeps_witness :
  last_time (mk 2 (Some 0)) = Some 0
  /\ interval (mk 2 (Some 0)) < seconds_clock (ticks (mkWorld 5 (@nil Q))) - 0
  /\ (forall k : nat, seconds_clock k <= seconds_clock (S k))
  /\ run seconds_clock (repeat Wait 3) (mk 2 (Some 0)) (mkWorld 5 [])
     = (Ok (repeat (mk 2 (Some 0)) 3), mkWorld (3 + 5) []).
Proof.
  split; [reflexivity|]. split; [reflexivity|].
  split; [exact seconds_clock_nondecreasing|].
  exact (@open_gate_never_sleeps seconds_clock 3 (mk 2 (Some 0))
           (mkWorld 5 []) 0 eq_refl eq_refl seconds_clock_nondecreasing).
Defined.

End FurtherRuns.


(** The address helper on a concrete system: the interface has address
    192.168.1.5. *)
Lemma get_ip_address_total_witness :
  get_ip_address os_example "wlan0" = Ok "192.168.1.5"%string
  /\ exists p0 p1 p2 p3 : string,
       get_ip_address os_example "wlan0"
       = Ok (p0 ++ "." ++ p1 ++ "." ++ p2 ++ "." ++ p3)%string
       /\ numeral_of xc0 p0
       /\ numeral_of xa8 p1
       /\ numeral_of x01 p2
       /\ numeral_of x05 p3.
Proof.
  split; [reflexivity|].
  destruct (get_ip_address_total os_example "wlan0")
    as (_ & _ & _ & _ & _ & Haddr).
  exact (Haddr 3%Z
           (firstn 20 (ifreq "wlan0") ++ [xc0; xa8; x01; x05]
            ++ skipn 24 (ifreq "wlan0"))%list
           eq_refl eq_refl ltac:(vm_compute; lia)).
Defined.

(** Without the socket, and with a reply that is too short. *)
Example get_ip_address_fallbacks :
  get_ip_address (mkOS (Raise socket_error) (fun _ _ _ => Ok [])) "wlan0"
  = Ok "--.--.--"%string
  /\ get_ip_address (mkOS (Ok 3%Z) (fun _ _ _ => Raise IOError)) "wlan0"
     = Ok "--.--.--"%string
  /\ get_ip_address (mkOS (Ok 3%Z) (fun _ _ arg => Ok (firstn 23 arg))) "wlan0"
     = Ok "--.--.--"%string.
Proof. repeat split; reflexivity. Qed.
